(** * Verification of the ai-news-analyst grounding pipeline and its content schema

    The citation validator, the hotness scorer and the retry controller
    belong to the Python agent of the repository; they are modelled here
    from the specification.  The content collection schema of
    [src/content/config.ts] (zod) is embedded from the source. *)

From Stdlib Require Import String Ascii List Bool Arith ZArith QArith Lia Reals Lra.
From Stdlib Require Import Qabs Permutation.
Import ListNotations.
Open Scope nat_scope.

(* ------------------------------------------------------------------ *)
(** ** Citation Validator ("Critic") *)

Module Critic.

Definition chars := list ascii.

Local Open Scope char_scope.

(** Characters ignored right after the closing parenthesis of a citation. *)
Definition is_trailing_punct (c : ascii) : bool :=
  existsb (Ascii.eqb c) ["."; ","; ";"; ":"; "!"; "?"].

Definition is_space (c : ascii) : bool :=
  existsb (Ascii.eqb c) [" "; "009"; "010"; "013"].

Fixpoint drop_while (p : ascii -> bool) (l : chars) : chars :=
  match l with
  | [] => []
  | c :: r => if p c then drop_while p r else l
  end.

(** Modelled from the spec: the Python critic is not in the sources.
    Trailing punctuation after the closing parenthesis is dropped from
    the right edge of the bullet (spec 4.5). *)
Definition strip_trailing_punct (s : chars) : chars :=
  rev (drop_while is_trailing_punct (rev s)).

(** The label of [\[label\]]: everything up to the first [\]]. *)
Fixpoint take_label (l : chars) : option chars :=
  match l with
  | [] => None
  | c :: r => if Ascii.eqb c "]" then Some r else take_label r
  end.

(** The URL of [(url)]: no blank, up to the first [)]. *)
Fixpoint take_url (l : chars) : option (chars * chars) :=
  match l with
  | [] => None
  | c :: r =>
      if Ascii.eqb c ")" then Some ([], r)
      else if is_space c then None
      else match take_url r with
           | Some (u, rest) => Some (c :: u, rest)
           | None => None
           end
  end.

(** A citation token starting right after a [\[]: the URL and what
    follows the closing parenthesis. *)
Definition parse_citation_at (r : chars) : option (chars * chars) :=
  match take_label r with
  | Some ("(" :: r2) =>
      match take_url r2 with
      | Some ((_ :: _) as u, rest) => Some (u, rest)
      | _ => None
      end
  | _ => None
  end.

(** The last citation-shaped token of a bullet (greatest start). *)
Fixpoint find_last (s : chars) : option (chars * chars) :=
  match s with
  | [] => None
  | c :: r =>
      match find_last r with
      | Some t => Some t
      | None => if Ascii.eqb c "[" then parse_citation_at r else None
      end
  end.

Definition locate_citation (b : string) : option (string * chars) :=
  match find_last (strip_trailing_punct (list_ascii_of_string b)) with
  | Some (u, rest) => Some (string_of_list_ascii u, rest)
  | None => None
  end.

(** The URL extracted from a bullet's trailing citation. *)
Definition extract_citation (b : string) : option string :=
  option_map fst (locate_citation b).

(** URL normalisation: case-fold scheme and host, strip one trailing slash. *)
Definition lower (c : ascii) : ascii :=
  if (Ascii.leb "A" c && Ascii.leb c "Z")%bool
  then ascii_of_nat (nat_of_ascii c + 32) else c.

Definition is_alpha (c : ascii) : bool :=
  ((Ascii.leb "a" c && Ascii.leb c "z") || (Ascii.leb "A" c && Ascii.leb c "Z"))%bool.

Definition is_digit (c : ascii) : bool := (Ascii.leb "0" c && Ascii.leb c "9")%bool.

(** Characters allowed in a URL scheme (RFC 3986). *)
Definition is_scheme_char (c : ascii) : bool :=
  (is_alpha c || is_digit c || existsb (Ascii.eqb c) ["+"; "-"; "."])%bool.

(** [scheme://rest] with a scheme of scheme characters only. *)
Fixpoint split_scheme (s : chars) : option (chars * chars) :=
  match s with
  | ":" :: "/" :: "/" :: r => Some ([], r)
  | c :: r =>
      if is_scheme_char c then
        match split_scheme r with
        | Some (sch, rest) => Some (c :: sch, rest)
        | None => None
        end
      else None
  | [] => None
  end.

(** The authority ends at the first [/], [?] or [#]. *)
Fixpoint split_authority (s : chars) : chars * chars :=
  match s with
  | [] => ([], [])
  | c :: r =>
      if existsb (Ascii.eqb c) ["/"; "?"; "#"] then ([], s)
      else let '(a, p) := split_authority r in (c :: a, p)
  end.

(** [userinfo@host] split at the last [@] of the authority. *)
Fixpoint split_last_at (a : chars) : option (chars * chars) :=
  match a with
  | [] => None
  | c :: r =>
      match split_last_at r with
      | Some (u, h) => Some (c :: u, h)
      | None => if Ascii.eqb c "@" then Some ([], r) else None
      end
  end.

Definition strip_one_slash (s : chars) : chars :=
  match rev s with
  | "/" :: r => rev r
  | _ => s
  end.

(** Case-folds the scheme and the host only: userinfo, path, query and
    fragment keep their case; then one trailing slash is stripped. *)
Definition normalize_chars (s : chars) : chars :=
  strip_one_slash
    match split_scheme s with
    | Some ((c0 :: _) as sch, r) =>
        if is_alpha c0 then
          let '(auth, rest) := split_authority r in
          let auth' := match split_last_at auth with
                       | Some (ui, h) => ui ++ "@" :: map lower h
                       | None => map lower auth
                       end in
          map lower sch ++ ":" :: "/" :: "/" :: auth' ++ rest
        else s
    | _ => s
    end.

Definition normalize_url (u : string) : string :=
  string_of_list_ascii (normalize_chars (list_ascii_of_string u)).

Local Close Scope char_scope.

Record EvidenceSet := {
  primary_url : string;
  sources : list (string * string)  (* (url, excerpt_text) *)
}.

(** The normalized admissible URL set of an evidence set. *)
Definition admissible (E : EvidenceSet) : list string :=
  map (fun p => normalize_url (fst p)) (sources E).

Definition is_admissible (E : EvidenceSet) (u : string) : bool :=
  existsb (String.eqb (normalize_url u)) (admissible E).

Inductive verdict :=
| Pass
| NoCitation
| NotAdmissible (url : string)
| TrailingProse (url : string).

Definition verdict_passes (v : verdict) : bool :=
  match v with Pass => true | _ => false end.

(** Modelled from the spec: the Python critic is not in the sources.
    Per-bullet verdict of spec 4.5: no citation, URL outside the
    admissible set, or prose after the citation all fail. *)
Definition bullet_verdict (E : EvidenceSet) (b : string) : verdict :=
  match locate_citation b with
  | None => NoCitation
  | Some (url, rest) =>
      if negb (is_admissible E url) then NotAdmissible url
      else match rest with
           | [] => Pass
           | _ :: _ => TrailingProse url
           end
  end.

Record Draft := {
  candidate_id : string;
  bullets : list string
}.

Inductive failure_reason :=
| EmptyDraft
| BulletFailed (index : nat) (v : verdict).

Record ValidationResult := {
  overall_pass : bool;
  verdicts : list verdict;
  first_failure_reason : option failure_reason
}.

Fixpoint first_failure (i : nat) (vs : list verdict) : option failure_reason :=
  match vs with
  | [] => None
  | v :: r => if verdict_passes v then first_failure (S i) r
              else Some (BulletFailed i v)
  end.

(** Modelled from the spec: the Python critic is not in the sources.
    overall_pass needs at least one bullet and every bullet passing. *)
Definition validate (E : EvidenceSet) (d : Draft) : ValidationResult :=
  let vs := map (bullet_verdict E) (bullets d) in
  {| overall_pass := match vs with
                     | [] => false
                     | _ :: _ => forallb verdict_passes vs
                     end;
     verdicts := vs;
     first_failure_reason := match vs with
                             | [] => Some EmptyDraft
                             | _ :: _ => first_failure 0 vs
                             end |}.

End Critic.

(* ------------------------------------------------------------------ *)
(** ** Hotness Scorer *)

Module Hotness.
Local Open Scope R_scope.

Record Candidate := {
  id : string;
  title : string;
  url : string;
  rank : Z;         (* 1-based position reported by the source *)
  age_hours : R;
  source_name : string
}.

Record ScoredCandidate := {
  cand : Candidate;
  score : R
}.

(** Modelled from the spec: the Python scout is not in the sources.
    [score = (1 / rank) * e^(-age_hours / 24)]; a rank of 0 or below is
    rejected (data-quality skip) rather than scored. *)
Definition hotness (c : Candidate) : option R :=
  if (rank c <=? 0)%Z then None
  else Some (/ IZR (rank c) * exp (- age_hours c / 24)).

(** Descending score, ties broken by ascending source rank. *)
Definition before (x y : ScoredCandidate) : bool :=
  if Rlt_dec (score y) (score x) then true
  else if Req_EM_T (score x) (score y)
       then (rank (cand x) <=? rank (cand y))%Z
       else false.

Fixpoint insert (x : ScoredCandidate) (l : list ScoredCandidate) : list ScoredCandidate :=
  match l with
  | [] => [x]
  | y :: r => if before x y then x :: l else y :: insert x r
  end.

Definition sort (l : list ScoredCandidate) : list ScoredCandidate :=
  fold_right insert [] l.

(** Scores every candidate; rejected ones are collected as skips. *)
Fixpoint score_candidates (cs : list Candidate)
  : list ScoredCandidate * list Candidate :=
  match cs with
  | [] => ([], [])
  | c :: r =>
      let '(ok, skipped) := score_candidates r in
      match hotness c with
      | Some s => ({| cand := c; score := s |} :: ok, skipped)
      | None => (ok, c :: skipped)
      end
  end.

(** The ranking handed to enrichment, and the skipped candidates. *)
Definition rank_candidates (cs : list Candidate)
  : list ScoredCandidate * list Candidate :=
  let '(ok, skipped) := score_candidates cs in (sort ok, skipped).

(** The fixed top-K that proceeds to enrichment. *)
Definition top_k (k : nat) (cs : list Candidate) : list ScoredCandidate :=
  firstn k (fst (rank_candidates cs)).

End Hotness.

(* ------------------------------------------------------------------ *)
(** ** Retry/Escalation Controller and the per-run pipeline *)

Module Controller.
Import Critic.

(** Answer of the timeout-bounded generation call at one attempt: a draft,
    a timeout or transient call error (treated alike), or a call error
    classified as fatal for this candidate. *)
Inductive gen_result :=
| GenDraft (d : Draft)
| GenTransient
| GenFatal.

Record ApprovedBriefingItem := {
  item_candidate : string;
  item_evidence : EvidenceSet;
  item_attempt : nat;
  item_draft : Draft;
  item_result : ValidationResult
}.

Inductive skip_reason :=
| EmptyEvidence
| AttemptsExhausted
| FatalCallError.

Inductive cstate :=
| Pending
| Generating (attempt : nat)
| Validating (attempt : nat) (d : Draft) (r : ValidationResult)
| Retrying (attempt : nat)
| Approved (it : ApprovedBriefingItem)
| Skipped (why : skip_reason).

Section Machine.

Variable max_attempts : nat.
Variable cid : string.
Variable E : EvidenceSet.
(** The draft generator's answer at each attempt number. *)
Variable generate : nat -> gen_result.

(** Modelled from the spec: the Python controller is not in the sources.
    One transition of the per-candidate state machine (spec 4.6); the
    terminal states [Approved] and [Skipped] have none. *)
Definition step (s : cstate) : option cstate :=
  match s with
  | Pending =>
      match sources E with
      | [] => Some (Skipped EmptyEvidence)
      | _ :: _ => Some (Generating 1)
      end
  | Generating n =>
      match generate n with
      | GenDraft d => Some (Validating n d (validate E d))
      | GenTransient =>
          Some (if n <? max_attempts then Retrying n else Skipped AttemptsExhausted)
      | GenFatal => Some (Skipped FatalCallError)
      end
  | Validating n d r =>
      Some (if overall_pass r
            then Approved {| item_candidate := cid; item_evidence := E;
                             item_attempt := n; item_draft := d; item_result := r |}
            else if n <? max_attempts then Retrying n
            else Skipped AttemptsExhausted)
  | Retrying n => Some (Generating (S n))
  | Approved _ | Skipped _ => None
  end.

Fixpoint run (fuel : nat) (s : cstate) : cstate :=
  match fuel with
  | 0 => s
  | S f => match step s with
           | None => s
           | Some s' => run f s'
           end
  end.

Fixpoint trace (fuel : nat) (s : cstate) : list cstate :=
  s :: match fuel with
       | 0 => []
       | S f => match step s with
                | None => []
                | Some s' => trace f s'
                end
       end.

End Machine.

Definition terminal (s : cstate) : bool :=
  match s with Approved _ | Skipped _ => true | _ => false end.

(** The attempt numbers at which the generator was called. *)
Fixpoint generation_attempts (tr : list cstate) : list nat :=
  match tr with
  | [] => []
  | Generating n :: r => n :: generation_attempts r
  | _ :: r => generation_attempts r
  end.

(** One candidate's worker: its id, evidence, generator and state. *)
Record worker := {
  w_cid : string;
  w_evidence : EvidenceSet;
  w_generate : nat -> gen_result;
  w_state : cstate
}.

Record pstate := {
  workers : list worker;
  approved : list ApprovedBriefingItem  (* append-only output collection *)
}.

Definition emit (s : cstate) : list ApprovedBriefingItem :=
  match s with Approved it => [it] | _ => [] end.

Definition set_state (w : worker) (s : cstate) : worker :=
  {| w_cid := w_cid w; w_evidence := w_evidence w;
     w_generate := w_generate w; w_state := s |}.

(** Any worker may take its next step, in any interleaving. *)
Inductive pstep (max_attempts : nat) : pstate -> pstate -> Prop :=
| pstep_worker ws1 w ws2 out s' :
    step max_attempts (w_cid w) (w_evidence w) (w_generate w) (w_state w) = Some s' ->
    pstep max_attempts
      {| workers := ws1 ++ w :: ws2; approved := out |}
      {| workers := ws1 ++ set_state w s' :: ws2; approved := out ++ emit s' |}.

Inductive reachable (max_attempts : nat) (s0 : pstate) : pstate -> Prop :=
| reach_refl : reachable max_attempts s0 s0
| reach_step s1 s2 :
    reachable max_attempts s0 s1 -> pstep max_attempts s1 s2 ->
    reachable max_attempts s0 s2.

Definition initial (ws : list worker) : Prop :=
  Forall (fun w => w_state w = Pending) ws.

End Controller.

(* ------------------------------------------------------------------ *)
(** ** The news content collection schema (src/content/config.ts) *)

Module Content.
Local Open Scope string_scope.
Local Set Warnings "-register-all".

(** JavaScript numbers: finite values (rationals here), NaN and the infinities. *)
Inductive jsnum :=
| NFin (q : Q)
| NNaN
| NPosInf
| NNegInf.

(** Frontmatter values as the schema receives them.  An object is an
    association list (a JS object has no duplicate keys); a Date carries
    its time value in ms, [None] for an invalid date. *)
Inductive jsval :=
| JUndefined
| JNull
| JBool (b : bool)
| JNum (n : jsnum)
| JStr (s : string)
| JArr (l : list jsval)
| JObj (fields : list (string * jsval))
| JDate (t : option Z).

(** [obj[key]]: a missing property reads as [undefined]. *)
Fixpoint get (fs : list (string * jsval)) (k : string) : jsval :=
  match fs with
  | [] => JUndefined
  | (k', v) :: r => if String.eqb k k' then v else get r k
  end.

Section Schema.

(** Engine built-ins the sources rely on: [Date.parse] (implementation
    defined outside ISO 8601; [None] is NaN), [Number.prototype.toString]
    and [Date.prototype.toString]. *)
Variable date_parse : string -> option Z.
Variable number_to_string : jsnum -> string.
Variable date_to_string : option Z -> string.

Definition max_time : Z := 8640000000000000.

(** TimeClip on a time value given as an integer. *)
Definition time_clip_z (t : Z) : option Z :=
  if (Z.abs t <=? max_time)%Z then Some t else None.

(** TimeClip on a number: NaN and infinities are invalid, in-range values
    are truncated toward zero. *)
Definition time_clip (n : jsnum) : option Z :=
  match n with
  | NFin q =>
      if Qle_bool (Qabs q) (inject_Z max_time)
      then Some (Z.quot (Qnum q) (Zpos (Qden q))) else None
  | _ => None
  end.

(** [String(v)] for array elements, as [Array.prototype.join] uses it. *)
Fixpoint join_string (v : jsval) : string :=
  match v with
  | JUndefined | JNull => ""
  | JBool true => "true"
  | JBool false => "false"
  | JNum n => number_to_string n
  | JStr s => s
  | JArr l =>
      (fix join (l : list jsval) : string :=
         match l with
         | [] => ""
         | [x] => join_string x
         | x :: r => join_string x ++ "," ++ join r
         end) l
  | JObj _ => "[object Object]"
  | JDate t => date_to_string t
  end.

(** ToPrimitive with the default hint, then ToNumber, for non-objects. *)
Definition to_number (v : jsval) : jsnum :=
  match v with
  | JNull => NFin 0
  | JBool true => NFin 1
  | JBool false => NFin 0
  | JNum n => n
  | _ => NNaN
  end.

(** [new Date(value)] with one argument: a Date is copied, a value whose
    primitive is a string is parsed, anything else goes through ToNumber;
    the result is TimeClipped.  [None] is an invalid date. *)
Definition js_new_date (v : jsval) : option Z :=
  match v with
  | JDate t => match t with Some z => time_clip_z z | None => None end
  | JStr s => match date_parse s with Some z => time_clip_z z | None => None end
  | JArr _ | JObj _ =>
      match date_parse (join_string v) with
      | Some z => time_clip_z z | None => None
      end
  | _ => time_clip (to_number v)
  end.

(** [z.string()]: accepts exactly the values of type string. *)
Definition zstring (v : jsval) : option string :=
  match v with JStr s => Some s | _ => None end.

(** [z.array(z.string())]: an array every element of which parses. *)
Fixpoint zstrings (l : list jsval) : option (list string) :=
  match l with
  | [] => Some []
  | x :: r =>
      match zstring x, zstrings r with
      | Some s, Some ss => Some (s :: ss)
      | _, _ => None
      end
  end.

Definition zarray_string (v : jsval) : option (list string) :=
  match v with JArr l => zstrings l | _ => None end.

(** [z.coerce.date()]: [new Date(input)], then rejected when invalid. *)
Definition zcoerce_date (v : jsval) : option Z := js_new_date v.

Record NewsEntry := {
  title : string;
  pubDate : Z;        (* a Date, by its time value *)
  description : string;
  tags : list string
}.

(** The [news] collection schema: [z.object] of the four fields; only a
    plain object is accepted, unknown keys are stripped, and parsing
    succeeds when every field does. *)
Definition news_schema (v : jsval) : option NewsEntry :=
  match v with
  | JObj fs =>
      match zstring (get fs "title"), zcoerce_date (get fs "pubDate"),
            zstring (get fs "description"), zarray_string (get fs "tags") with
      | Some t, Some d, Some de, Some tg =>
          Some {| title := t; pubDate := d; description := de; tags := tg |}
      | _, _, _, _ => None
      end
  | _ => None
  end.

End Schema.

Definition is_string (v : jsval) : Prop :=
  match v with JStr _ => True | _ => False end.

Definition is_string_array (v : jsval) : Prop :=
  match v with JArr l => Forall is_string l | _ => False end.

End Content.

(* ------------------------------------------------------------------ *)
(** ** Frontmatter objects around the news schema *)

Module ContentOps.
Import Content.
Local Open Scope string_scope.

(** The keys of the [news] schema's shape, in declaration order. *)
Definition field_names : list string := ["title"; "pubDate"; "description"; "tags"].

(** [obj[k] = v]: replaces an existing property in place, else adds it. *)
Fixpoint set_field (fs : list (string * jsval)) (k : string) (v : jsval)
  : list (string * jsval) :=
  match fs with
  | [] => [(k, v)]
  | (k', v') :: r =>
      if String.eqb k k' then (k, v) :: r else (k', v') :: set_field r k v
  end.

(** A parsed entry written back as frontmatter, pubDate as a Date. *)
Definition encode_entry (e : NewsEntry) : jsval :=
  JObj [("title", JStr (title e));
        ("pubDate", JDate (Some (pubDate e)));
        ("description", JStr (description e));
        ("tags", JArr (map JStr (tags e)))].

End ContentOps.

(* ------------------------------------------------------------------ *)
(** ** Properties of the citation validator *)

Module CriticFacts.
Import Critic.
Local Open Scope string_scope.

Lemma list_ascii_of_string_app (s1 s2 : string) :
  list_ascii_of_string (s1 ++ s2) = (list_ascii_of_string s1 ++ list_ascii_of_string s2)%list.
Proof. induction s1 as [|c s1 IH]; simpl; [reflexivity | now rewrite IH]. Qed.

Lemma strip_trailing_punct_snoc (l : chars) (c : ascii) :
  is_trailing_punct c = true ->
  strip_trailing_punct (l ++ [c])%list = strip_trailing_punct l.
Proof.
  intros Hc. unfold strip_trailing_punct.
  rewrite rev_app_distr. simpl. now rewrite Hc.
Qed.

Lemma is_admissible_false (E : EvidenceSet) (u : string) :
  ~ In (normalize_url u) (admissible E) -> is_admissible E u = false.
Proof.
  intros Hn. unfold is_admissible.
  destruct (existsb (String.eqb (normalize_url u)) (admissible E)) eqn:He; [|reflexivity].
  apply existsb_exists in He as [x [Hx Heq]].
  apply String.eqb_eq in Heq. subst x. contradiction.
Qed.

Lemma overall_pass_iff (E : EvidenceSet) (d : Draft) :
  overall_pass (validate E d) = true <->
  bullets d <> [] /\ Forall (fun b => verdict_passes (bullet_verdict E b) = true) (bullets d).
Proof.
  unfold validate; simpl. destruct (bullets d) as [|b bs] eqn:Hb; simpl.
  - split; [discriminate | intros [H _]; now contradiction H].
  - rewrite andb_true_iff, forallb_forall, Forall_forall. split.
    + intros [H1 H2]. split; [discriminate|].
      intros x [<-|Hx]; [assumption|].
      apply H2. now apply in_map.
    + intros [_ H]. split; [apply H; now left|].
      intros v Hv. apply in_map_iff in Hv as [x [<- Hx]]. apply H. now right.
Qed.

(** Claim C1: a bullet whose extracted, normalized citation URL is not in
    the evidence set's normalized admissible set fails validation whatever
    the URL looks like; the verdict reports that very URL (no substitute),
    and every draft containing the bullet fails overall. *)
Theorem unlisted_citation_fails (E : EvidenceSet) (b u : string) :
  extract_citation b = Some u ->
  ~ In (normalize_url u) (admissible E) ->
  bullet_verdict E b = NotAdmissible u /\
  verdict_passes (bullet_verdict E b) = false /\
  (forall d : Draft, In b (bullets d) -> overall_pass (validate E d) = false).
Proof.
  intros Hex Hnin.
  assert (Hv : bullet_verdict E b = NotAdmissible u).
  { unfold extract_citation in Hex. unfold bullet_verdict.
    destruct (locate_citation b) as [[url rest]|]; simpl in Hex; [|discriminate].
    injection Hex as ->. now rewrite (is_admissible_false E u Hnin). }
  split; [exact Hv|]. split; [now rewrite Hv|].
  intros d Hin. destruct (overall_pass (validate E d)) eqn:Hp; [|reflexivity].
  apply overall_pass_iff in Hp as [_ Hall]. rewrite Forall_forall in Hall.
  specialize (Hall b Hin). rewrite Hv in Hall. discriminate.
Qed.

Lemma unlisted_citation_fails_witness :
  let E := {| primary_url := "https://example.com?id=ABC";
              sources := [("https://example.com?id=ABC", "excerpt")] |} in
  let b := "Chips ship late [Source](HTTPS://Example.com?id=abc)" in
  extract_citation b = Some "HTTPS://Example.com?id=abc" /\
  ~ In (normalize_url "HTTPS://Example.com?id=abc") (admissible E) /\
  bullet_verdict E b = NotAdmissible "HTTPS://Example.com?id=abc".
Proof.
  intros E b.
  assert (Hx : extract_citation b = Some "HTTPS://Example.com?id=abc") by reflexivity.
  assert (Hn : ~ In (normalize_url "HTTPS://Example.com?id=abc") (admissible E)).
  { vm_compute. intros [H|H]; [discriminate H | exact H]. }
  split; [exact Hx|]. split; [exact Hn|].
  exact (proj1 (unlisted_citation_fails E b _ Hx Hn)).
Defined.

(** Claim C2: validating a draft with no bullets never passes; overall_pass
    holds exactly when there is at least one bullet and every bullet passes. *)
Theorem empty_draft_fails_closed (E : EvidenceSet) (cid : string) :
  overall_pass (validate E {| candidate_id := cid; bullets := [] |}) = false /\
  (forall d : Draft, overall_pass (validate E d) = true <->
     bullets d <> [] /\
     Forall (fun b => verdict_passes (bullet_verdict E b) = true) (bullets d)).
Proof. split; [reflexivity | apply overall_pass_iff]. Qed.

(** Claim C5: when https://example.com/a is admissible, a bullet ending in
    [\[Source\](https://example.com/a).] gets the same verdict as the same
    bullet ending in [\[Source\](https://example.com/a)]. *)
Theorem trailing_period_same_verdict (E : EvidenceSet) (B : string) :
  In "https://example.com/a" (admissible E) ->
  bullet_verdict E (B ++ "[Source](https://example.com/a).") =
  bullet_verdict E (B ++ "[Source](https://example.com/a)").
Proof.
  intros _. unfold bullet_verdict, locate_citation.
  replace (B ++ "[Source](https://example.com/a).")
    with ((B ++ "[Source](https://example.com/a)") ++ ".")
    by (induction B as [|c B IH]; simpl; [reflexivity | now rewrite IH]).
  rewrite list_ascii_of_string_app.
  change (list_ascii_of_string ".") with ["."%char].
  now rewrite strip_trailing_punct_snoc by reflexivity.
Qed.

Lemma trailing_period_same_verdict_witness :
  let E := {| primary_url := "https://Example.com/a/";
              sources := [("https://Example.com/a/", "excerpt")] |} in
  In "https://example.com/a" (admissible E) /\
  bullet_verdict E ("Revenue rose " ++ "[Source](https://example.com/a).") =
  bullet_verdict E ("Revenue rose " ++ "[Source](https://example.com/a)").
Proof.
  intros E.
  assert (H : In "https://example.com/a" (admissible E)) by (vm_compute; now left).
  split; [exact H | exact (trailing_period_same_verdict E _ H)].
Defined.

End CriticFacts.

(* ------------------------------------------------------------------ *)
(** ** Properties of the hotness scorer *)

Module HotnessFacts.
Import Hotness.
Local Open Scope R_scope.

Lemma score_rank_decreasing (r1 r2 : Z) (a : R) :
  (1 <= r1)%Z -> (r1 < r2)%Z ->
  / IZR r2 * exp (- a / 24) < / IZR r1 * exp (- a / 24).
Proof.
  intros H1 H12.
  apply Rmult_lt_compat_r; [apply exp_pos|].
  apply Rinv_lt_contravar.
  - apply Rmult_lt_0_compat; apply IZR_lt; lia.
  - apply IZR_lt; exact H12.
Qed.

Lemma score_age_decreasing (r : Z) (a1 a2 : R) :
  (1 <= r)%Z -> a1 < a2 ->
  / IZR r * exp (- a2 / 24) < / IZR r * exp (- a1 / 24).
Proof.
  intros Hr Ha.
  apply Rmult_lt_compat_l.
  - apply Rinv_0_lt_compat. apply IZR_lt; lia.
  - apply exp_increasing. lra.
Qed.

(** Claim C3: for rank r >= 1 and age a >= 0 the scorer computes
    (1/r) * e^(-a/24); this score is strictly decreasing in the rank and
    strictly decreasing in the age. *)
Theorem hotness_formula_and_monotone (c : Candidate) :
  (1 <= rank c)%Z -> 0 <= age_hours c ->
  hotness c = Some (1 / IZR (rank c) * exp (- age_hours c / 24)) /\
  (forall r2 : Z, (rank c < r2)%Z ->
     / IZR r2 * exp (- age_hours c / 24) < / IZR (rank c) * exp (- age_hours c / 24)) /\
  (forall a2 : R, age_hours c < a2 ->
     / IZR (rank c) * exp (- a2 / 24) < / IZR (rank c) * exp (- age_hours c / 24)).
Proof.
  intros Hr Ha. split; [|split].
  - unfold hotness. destruct (rank c <=? 0)%Z eqn:E; [lia|].
    f_equal. unfold Rdiv. now rewrite Rmult_1_l.
  - intros r2 H. now apply score_rank_decreasing.
  - intros a2 H. now apply score_age_decreasing.
Qed.

Lemma hotness_formula_and_monotone_witness :
  let c := {| id := "1"; title := "t"; url := "https://a.example"; rank := 2%Z;
              age_hours := 5; source_name := "hackernews" |} in
  hotness c = Some (1 / IZR 2 * exp (- 5 / 24)).
Proof.
  intros c.
  exact (proj1 (hotness_formula_and_monotone c ltac:(simpl; lia) ltac:(simpl; lra))).
Defined.

Lemma score_candidates_ok_rank (cs : list Candidate) :
  forall sc, In sc (fst (score_candidates cs)) -> (1 <= rank (cand sc))%Z.
Proof.
  induction cs as [|c r IH]; simpl; [tauto|].
  destruct (score_candidates r) as [ok sk]. simpl in IH.
  unfold hotness. destruct (rank c <=? 0)%Z eqn:E; simpl.
  - exact IH.
  - intros sc [<-|H]; [simpl; lia | now apply IH].
Qed.

Lemma score_candidates_skips (cs : list Candidate) (c : Candidate) :
  (rank c <= 0)%Z -> In c cs -> In c (snd (score_candidates cs)).
Proof.
  intros Hr. induction cs as [|c' r IH]; simpl; [tauto|].
  destruct (score_candidates r) as [ok sk]. simpl in IH.
  destruct (hotness c') eqn:Hh; simpl.
  - intros [Heq|H]; [subst c'|now apply IH].
    unfold hotness in Hh. destruct (rank c <=? 0)%Z eqn:E; [discriminate | lia].
  - intros [Heq|H]; [subst c'; now left | right; now apply IH].
Qed.

Lemma in_insert (x y : ScoredCandidate) (l : list ScoredCandidate) :
  In y (insert x l) <-> x = y \/ In y l.
Proof.
  induction l as [|z l IH]; simpl; [tauto|].
  destruct (before x z); simpl; [tauto|]. rewrite IH. tauto.
Qed.

Lemma in_sort (y : ScoredCandidate) (l : list ScoredCandidate) :
  In y (sort l) <-> In y l.
Proof.
  induction l as [|z l IH]; simpl; [tauto|].
  rewrite in_insert, IH. intuition.
Qed.

(** Claim C4: a candidate whose rank is 0 or negative is rejected by the
    scorer (no score), lands among the skipped candidates and is absent
    from the ranking; scoring is a total function, so the rejection is a
    value, not a failure. *)
Theorem nonpositive_rank_rejected (c : Candidate) :
  (rank c <= 0)%Z ->
  hotness c = None /\
  (forall cs : list Candidate,
     In c cs ->
     In c (snd (rank_candidates cs)) /\
     (forall sc, In sc (fst (rank_candidates cs)) -> cand sc <> c)).
Proof.
  intros Hr. split.
  - unfold hotness. destruct (rank c <=? 0)%Z eqn:E; [reflexivity | lia].
  - intros cs Hin. unfold rank_candidates.
    pose proof (score_candidates_skips cs c Hr Hin) as Hs.
    pose proof (score_candidates_ok_rank cs) as Hok.
    destruct (score_candidates cs) as [ok sk]; simpl in *.
    split; [exact Hs|].
    intros sc Hsc Heq. rewrite in_sort in Hsc.
    specialize (Hok sc Hsc). rewrite Heq in Hok. lia.
Qed.

Lemma nonpositive_rank_rejected_witness :
  let c := {| id := "7"; title := "t"; url := "https://a.example"; rank := 0%Z;
              age_hours := 1; source_name := "hackernews" |} in
  hotness c = None.
Proof.
  intros c. exact (proj1 (nonpositive_rank_rejected c ltac:(simpl; lia))).
Defined.

End HotnessFacts.

(* ------------------------------------------------------------------ *)
(** ** Properties of the retry controller *)

Module ControllerFacts.
Import Critic Controller.
Local Opaque validate.

Section Runs.
Variables (m : nat) (cid : string) (E : EvidenceSet) (g : nat -> gen_result).

Lemma step_terminal (s : cstate) :
  terminal s = true -> step m cid E g s = None.
Proof. destruct s; simpl; congruence. Qed.

Lemma run_stop (f : nat) (s : cstate) :
  terminal s = true -> run m cid E g f s = s.
Proof.
  intros Ht. destruct f; simpl; [reflexivity|].
  now rewrite (step_terminal s Ht).
Qed.

Lemma run_step (f : nat) (s s' : cstate) :
  step m cid E g s = Some s' -> run m cid E g (S f) s = run m cid E g f s'.
Proof. intros H. cbn [run]. now rewrite H. Qed.

Lemma trace_step (f : nat) (s s' : cstate) :
  step m cid E g s = Some s' -> trace m cid E g (S f) s = s :: trace m cid E g f s'.
Proof. intros H. cbn [trace]. now rewrite H. Qed.

Lemma run_more (f k : nat) (s : cstate) :
  terminal (run m cid E g f s) = true -> run m cid E g (f + k) s = run m cid E g f s.
Proof.
  revert s. induction f as [|f IH]; intros s Ht.
  - simpl in *. now apply run_stop.
  - simpl in *. destruct (step m cid E g s) as [s'|] eqn:Hs; [now apply IH | reflexivity].
Qed.

Lemma trace_more (f k : nat) (s : cstate) :
  terminal (run m cid E g f s) = true -> trace m cid E g (f + k) s = trace m cid E g f s.
Proof.
  revert s. induction f as [|f IH]; intros s Ht.
  - simpl in *. destruct k; simpl; [reflexivity|].
    now rewrite (step_terminal s Ht).
  - simpl in *. destruct (step m cid E g s) as [s'|] eqn:Hs; [|reflexivity].
    now rewrite IH.
Qed.

Lemma run_le (f f' : nat) (s : cstate) :
  terminal (run m cid E g f s) = true -> f <= f' -> terminal (run m cid E g f' s) = true.
Proof.
  intros Ht Hle. replace f' with (f + (f' - f)) by lia.
  now rewrite run_more.
Qed.

(** From attempt [n], at most [3 * (m - n) + 2] steps reach a terminal state. *)
Lemma generating_terminates (k n : nat) :
  m - n = k -> terminal (run m cid E g (3 * k + 2) (Generating n)) = true.
Proof.
  revert n. induction k as [|k IH]; intros n Hk.
  - assert (Hn : (n <? m) = false) by (apply Nat.ltb_ge; lia).
    simpl. destruct (g n) as [d| |]; simpl; [|now rewrite Hn|reflexivity].
    destruct (overall_pass (validate E d)); [reflexivity|]. now rewrite Hn.
  - assert (Hn : (n <? m) = true) by (apply Nat.ltb_lt; lia).
    specialize (IH (S n) ltac:(lia)).
    replace (3 * S k + 2) with (S (S (S (3 * k + 2)))) by lia.
    simpl. destruct (g n) as [d| |]; simpl.
    + destruct (overall_pass (validate E d)); [reflexivity|]. rewrite Hn. exact IH.
    + rewrite Hn.
      change (terminal (run m cid E g (S (3 * k + 2)) (Generating (S n))) = true).
      apply (run_le _ _ _ IH). lia.
    + reflexivity.
Qed.

(** The controller never loops: from [Pending] it is terminal after
    [3 * max_attempts + 3] steps, whatever the generator answers. *)
Lemma controller_terminates :
  terminal (run m cid E g (3 * m + 3) Pending) = true.
Proof.
  replace (3 * m + 3) with (S (3 * (m - 1) + 2 + (3 * m + 2 - (3 * (m - 1) + 2)))) by lia.
  simpl. destruct (sources E); [now rewrite run_stop|].
  rewrite run_more; [apply generating_terminates; reflexivity|].
  apply generating_terminates; reflexivity.
Qed.

End Runs.

(** Claim C6: with max_attempts = 3, non-empty evidence and a generator
    whose draft fails validation at every attempt, the controller calls the
    generator at attempts 1, 2 and 3 and no more, and ends in Skipped;
    any further fuel leaves that outcome unchanged (no endless loop). *)
Theorem retry_bound_three (cid : string) (E : EvidenceSet) (g : nat -> gen_result) :
  sources E <> [] ->
  (forall n, exists d, g n = GenDraft d /\ overall_pass (validate E d) = false) ->
  forall fuel, 9 <= fuel ->
    run 3 cid E g fuel Pending = Skipped AttemptsExhausted /\
    generation_attempts (trace 3 cid E g fuel Pending) = [1; 2; 3].
Proof.
  intros Hsrc Hg fuel Hf.
  destruct (Hg 1) as [d1 [G1 P1]], (Hg 2) as [d2 [G2 P2]], (Hg 3) as [d3 [G3 P3]].
  assert (S0 : step 3 cid E g Pending = Some (Generating 1)).
  { simpl. destruct (sources E); [contradiction|reflexivity]. }
  assert (SG : forall n d, g n = GenDraft d ->
            step 3 cid E g (Generating n) = Some (Validating n d (validate E d))).
  { intros n d H. simpl. now rewrite H. }
  assert (SV : forall n d, overall_pass (validate E d) = false ->
            step 3 cid E g (Validating n d (validate E d)) =
            Some (if n <? 3 then Retrying n else Skipped AttemptsExhausted)).
  { intros n d H. simpl. now rewrite H. }
  assert (SR : forall n, step 3 cid E g (Retrying n) = Some (Generating (S n)))
    by reflexivity.
  assert (R9 : run 3 cid E g 9 Pending = Skipped AttemptsExhausted).
  { rewrite (run_step _ _ _ _ _ _ _ S0), (run_step _ _ _ _ _ _ _ (SG 1 d1 G1)),
      (run_step _ _ _ _ _ _ _ (SV 1 d1 P1)), (run_step _ _ _ _ _ _ _ (SR 1)),
      (run_step _ _ _ _ _ _ _ (SG 2 d2 G2)), (run_step _ _ _ _ _ _ _ (SV 2 d2 P2)),
      (run_step _ _ _ _ _ _ _ (SR 2)), (run_step _ _ _ _ _ _ _ (SG 3 d3 G3)),
      (run_step _ _ _ _ _ _ _ (SV 3 d3 P3)).
    reflexivity. }
  assert (T9 : generation_attempts (trace 3 cid E g 9 Pending) = [1; 2; 3]).
  { rewrite (trace_step _ _ _ _ _ _ _ S0), (trace_step _ _ _ _ _ _ _ (SG 1 d1 G1)),
      (trace_step _ _ _ _ _ _ _ (SV 1 d1 P1)), (trace_step _ _ _ _ _ _ _ (SR 1)),
      (trace_step _ _ _ _ _ _ _ (SG 2 d2 G2)), (trace_step _ _ _ _ _ _ _ (SV 2 d2 P2)),
      (trace_step _ _ _ _ _ _ _ (SR 2)), (trace_step _ _ _ _ _ _ _ (SG 3 d3 G3)),
      (trace_step _ _ _ _ _ _ _ (SV 3 d3 P3)).
    reflexivity. }
  assert (Ht : terminal (run 3 cid E g 9 Pending) = true) by now rewrite R9.
  replace fuel with (9 + (fuel - 9)) by lia.
  rewrite run_more, trace_more by exact Ht.
  now split.
Qed.

Lemma retry_bound_three_witness :
  let E := {| primary_url := "https://example.com/a"%string;
              sources := [("https://example.com/a"%string, "excerpt"%string)] |} in
  let g := fun _ : nat =>
    GenDraft {| candidate_id := "c1"%string;
                bullets := ["Made up [Source](https://example.org/x)"%string] |} in
  run 3 "c1"%string E g 9 Pending = Skipped AttemptsExhausted /\
  generation_attempts (trace 3 "c1"%string E g 9 Pending) = [1; 2; 3].
Proof.
  intros E g.
  refine (retry_bound_three "c1"%string E g _ _ 9 _).
  - discriminate.
  - intros n. eexists. split; [reflexivity | vm_compute; reflexivity].
  - lia.
Defined.

End ControllerFacts.

(* ------------------------------------------------------------------ *)
(** ** The approval invariant of the pipeline *)

Module PipelineFacts.
Import Critic Controller.
Local Opaque validate.

(** An approved item of worker [w]: same candidate and evidence, the draft
    of its own attempt, and a passing validation of exactly that draft. *)
Definition item_ok (w : worker) (it : ApprovedBriefingItem) : Prop :=
  item_candidate it = w_cid w /\
  item_evidence it = w_evidence w /\
  w_generate w (item_attempt it) = GenDraft (item_draft it) /\
  item_result it = validate (w_evidence w) (item_draft it) /\
  overall_pass (item_result it) = true.

Definition worker_ok (w : worker) : Prop :=
  match w_state w with
  | Validating n d r => w_generate w n = GenDraft d /\ r = validate (w_evidence w) d
  | Approved it => item_ok w it
  | _ => True
  end.

Definition inv (st : pstate) : Prop :=
  Forall worker_ok (workers st) /\
  forall it, In it (approved st) ->
    exists w, In w (workers st) /\ w_state w = Approved it /\ item_ok w it.

Lemma worker_ok_step (m : nat) (w : worker) (s' : cstate) :
  worker_ok w ->
  step m (w_cid w) (w_evidence w) (w_generate w) (w_state w) = Some s' ->
  worker_ok (set_state w s').
Proof.
  unfold worker_ok. destruct (w_state w) as [|n|n d r|n|it|why]; simpl; intros Hw Hs.
  - destruct (sources (w_evidence w)); injection Hs as <-; exact I.
  - destruct (w_generate w n) as [d| |] eqn:Hg; injection Hs as <-.
    + simpl. split; [exact Hg | reflexivity].
    + destruct (n <? m); exact I.
    + exact I.
  - destruct Hw as [Hg ->]. injection Hs as <-.
    destruct (overall_pass (validate (w_evidence w) d)) eqn:Hp.
    + simpl. unfold item_ok; simpl. repeat split; assumption.
    + destruct (n <? m); exact I.
  - injection Hs as <-. exact I.
  - discriminate.
  - discriminate.
Qed.

Lemma inv_step (m : nat) (st st' : pstate) :
  inv st -> pstep m st st' -> inv st'.
Proof.
  intros [Hws Hout] Hst. destruct Hst as [ws1 w ws2 out s' Hs]; simpl in *.
  apply Forall_app in Hws as [Hws1 Hws2]. inversion Hws2 as [|? ? Hw Hws2']; subst.
  split.
  - simpl. apply Forall_app. split; [exact Hws1|].
    constructor; [exact (worker_ok_step m w s' Hw Hs) | exact Hws2'].
  - intros it Hin. apply in_app_or in Hin as [Hin|Hin].
    + destruct (Hout it Hin) as [w0 [Hw0 [Hst0 Hok0]]].
      exists w0. split; [|split; assumption].
      apply in_app_or in Hw0 as [Hw0|[<-|Hw0]].
      * apply in_or_app. now left.
      * rewrite Hst0 in Hs. discriminate.
      * apply in_or_app. right. now right.
    + destruct s' as [| | | |it'|]; simpl in Hin; try contradiction.
      destruct Hin as [<-|[]].
      exists (set_state w (Approved it')). split; [|split].
      * apply in_or_app. right. now left.
      * reflexivity.
      * exact (worker_ok_step m w _ Hw Hs).
Qed.

Lemma inv_initial (ws : list worker) :
  initial ws -> inv {| workers := ws; approved := [] |}.
Proof.
  intros Hi. split; simpl; [|tauto].
  eapply Forall_impl; [|exact Hi]. intros w Hw. unfold worker_ok. now rewrite Hw.
Qed.

Lemma inv_reachable (m : nat) (ws : list worker) (st : pstate) :
  initial ws -> reachable m {| workers := ws; approved := [] |} st -> inv st.
Proof.
  intros Hi Hr. induction Hr as [|s1 s2 _ IH Hs].
  - now apply inv_initial.
  - exact (inv_step m s1 s2 IH Hs).
Qed.

(** Claim C8: in every state reachable from workers all Pending, every
    approved item sits in the output together with a worker whose terminal
    state is that very item, of the same candidate and evidence set; the
    item's validation result is the validation of exactly its draft, that
    draft is the one generated at the approving attempt, it passes overall,
    and every one of its bullets passes against that evidence set. *)
Theorem approved_items_validated (m : nat) (ws : list worker) (st : pstate) :
  initial ws ->
  reachable m {| workers := ws; approved := [] |} st ->
  forall it, In it (approved st) ->
  exists w, In w (workers st) /\ w_state w = Approved it /\
    item_candidate it = w_cid w /\
    item_evidence it = w_evidence w /\
    w_generate w (item_attempt it) = GenDraft (item_draft it) /\
    item_result it = validate (w_evidence w) (item_draft it) /\
    overall_pass (item_result it) = true /\
    bullets (item_draft it) <> [] /\
    Forall (fun b => verdict_passes (bullet_verdict (w_evidence w) b) = true)
      (bullets (item_draft it)).
Proof.
  intros Hi Hr it Hin.
  destruct (inv_reachable m ws st Hi Hr) as [_ Hout].
  destruct (Hout it Hin) as [w [Hw [Hst [Hc [He [Hg [Hres Hp]]]]]]].
  exists w. do 7 (split; [assumption|]).
  rewrite Hres in Hp. exact (proj1 (CriticFacts.overall_pass_iff _ _) Hp).
Qed.

Lemma approved_items_validated_witness :
  let E := {| primary_url := "https://example.com/a"%string;
              sources := [("https://example.com/a"%string, "excerpt"%string)] |} in
  let d := {| candidate_id := "c1"%string;
              bullets := ["Shipped in May [Source](https://Example.com/a/)."%string] |} in
  let w0 := {| w_cid := "c1"%string; w_evidence := E;
               w_generate := (fun _ => GenDraft d); w_state := Pending |} in
  let it := {| item_candidate := "c1"%string; item_evidence := E; item_attempt := 1;
               item_draft := d; item_result := validate E d |} in
  let w3 := set_state (set_state (set_state w0 (Generating 1))
                                 (Validating 1 d (validate E d))) (Approved it) in
  let st := {| workers := [w3]; approved := [it] |} in
  initial [w0] /\ reachable 3 {| workers := [w0]; approved := [] |} st /\
  exists w, In w (workers st) /\ w_state w = Approved it /\
    item_result it = validate (w_evidence w) (item_draft it) /\
    overall_pass (item_result it) = true.
Proof.
  intros E d w0 it w3 st.
  assert (Hi : initial [w0]) by (constructor; [reflexivity | constructor]).
  pose (w1 := set_state w0 (Generating 1)).
  pose (w2 := set_state w1 (Validating 1 d (validate E d))).
  assert (Hr : reachable 3 {| workers := [w0]; approved := [] |} st).
  { refine (reach_step _ _ {| workers := [w2]; approved := [] |} st _
              (pstep_worker 3 [] w2 [] [] (Approved it) eq_refl)).
    refine (reach_step _ _ {| workers := [w1]; approved := [] |} _ _
              (pstep_worker 3 [] w1 [] [] (Validating 1 d (validate E d)) eq_refl)).
    refine (reach_step _ _ {| workers := [w0]; approved := [] |} _ _
              (pstep_worker 3 [] w0 [] [] (Generating 1) eq_refl)).
    apply reach_refl. }
  split; [exact Hi|]. split; [exact Hr|].
  destruct (approved_items_validated 3 [w0] st Hi Hr it (or_introl eq_refl))
    as [w [Hw [Hs [_ [_ [_ [Hres [Hp _]]]]]]]].
  exists w. repeat split; assumption.
Defined.

End PipelineFacts.

(* ------------------------------------------------------------------ *)
(** ** Properties of the news collection schema *)

Module ContentFacts.
Import Content.
Local Open Scope string_scope.

Lemma zstrings_some (l : list jsval) (ss : list string) :
  zstrings l = Some ss -> l = map JStr ss.
Proof.
  revert ss. induction l as [|x r IH]; intros ss H; simpl in H.
  - now injection H as <-.
  - destruct x; simpl in H; try discriminate.
    destruct (zstrings r) as [ss'|] eqn:Hr; [|discriminate].
    injection H as <-. simpl. now rewrite (IH ss' eq_refl).
Qed.

Lemma zstrings_of_strings (l : list jsval) :
  Forall is_string l -> exists ss, zstrings l = Some ss.
Proof.
  induction 1 as [|x r Hx _ [ss IH]].
  - now exists [].
  - destruct x; try contradiction. exists (s :: ss). simpl. now rewrite IH.
Qed.

Lemma is_string_map_JStr (ss : list string) : Forall is_string (map JStr ss).
Proof. induction ss; constructor; simpl; auto. Qed.

(** Claim C9: the news schema accepts a value only if it is an object whose
    title and description are strings and whose tags are an array of
    strings (and then returns exactly those); an object with any of these
    fields missing or of the wrong type, or a non-object, is rejected. *)
Theorem news_schema_field_types
  (date_parse : string -> option Z) (number_to_string : jsnum -> string)
  (date_to_string : option Z -> string) (v : jsval) :
  let parse := news_schema date_parse number_to_string date_to_string in
  (forall e, parse v = Some e ->
     exists fs, v = JObj fs /\
       get fs "title" = JStr (title e) /\
       get fs "description" = JStr (description e) /\
       get fs "tags" = JArr (map JStr (tags e)) /\
       is_string_array (get fs "tags")) /\
  (forall fs, v = JObj fs ->
     ~ is_string (get fs "title") \/ ~ is_string (get fs "description") \/
     ~ is_string_array (get fs "tags") ->
     parse v = None) /\
  ((forall fs, v <> JObj fs) -> parse v = None).
Proof.
  intros parse. split; [|split].
  - intros e H. unfold parse, news_schema in H.
    destruct v as [| | | | | |fs|]; try discriminate.
    exists fs. split; [reflexivity|].
    destruct (get fs "title") eqn:Ht; try discriminate.
    destruct (zcoerce_date date_parse number_to_string date_to_string (get fs "pubDate"));
      [|discriminate].
    destruct (get fs "description") eqn:Hd; try discriminate.
    destruct (get fs "tags") as [| | | | |l| |] eqn:Hg; try discriminate.
    simpl in H. destruct (zstrings l) as [ss|] eqn:Hl; [|discriminate].
    injection H as <-. simpl.
    rewrite (zstrings_some l ss Hl). repeat split. apply is_string_map_JStr.
  - intros fs -> Hbad. unfold parse, news_schema.
    destruct (get fs "title") eqn:Ht; simpl; try reflexivity.
    destruct (zcoerce_date date_parse number_to_string date_to_string (get fs "pubDate"));
      [|reflexivity].
    destruct (get fs "description") eqn:Hd; try reflexivity.
    destruct (get fs "tags") as [| | | | |l| |] eqn:Hg; try reflexivity.
    simpl. destruct (zstrings l) as [ss|] eqn:Hl; [|reflexivity].
    exfalso. apply zstrings_some in Hl. subst l.
    destruct Hbad as [H|[H|H]]; apply H; simpl; [exact I | exact I |].
    apply is_string_map_JStr.
  - intros Hno. unfold parse, news_schema.
    destruct v; try reflexivity. exfalso. now apply (Hno fields).
Qed.

Lemma news_schema_field_types_witness :
  let dp := fun s : string => if String.eqb s "2024-01-15" then Some 1705276800000%Z else None in
  let ns := fun _ : jsnum => "0" in
  let ds := fun _ : option Z => "Invalid Date" in
  news_schema dp ns ds
    (JObj [("title", JStr "T"); ("pubDate", JStr "2024-01-15"); ("description", JStr "D")])
  = None.
Proof.
  intros dp ns ds.
  apply (proj1 (proj2 (news_schema_field_types dp ns ds _)) _ eq_refl).
  right. right. simpl. tauto.
Defined.

(** Claim C10: [pubDate] goes through [z.coerce.date()]: for an object whose
    other fields are well typed, whenever [new Date(pubDate)] is a valid
    date (an ISO string, a number, a Date, ...) the entry is accepted with
    that date; whenever it is an invalid date the entry is rejected; and an
    accepted entry's pubDate is always that coerced date. *)
Theorem pubdate_coerced
  (date_parse : string -> option Z) (number_to_string : jsnum -> string)
  (date_to_string : option Z -> string) :
  let parse := news_schema date_parse number_to_string date_to_string in
  let to_date := js_new_date date_parse number_to_string date_to_string in
  (forall fs, is_string (get fs "title") -> is_string (get fs "description") ->
     is_string_array (get fs "tags") ->
     forall t, to_date (get fs "pubDate") = Some t ->
     exists e, parse (JObj fs) = Some e /\ pubDate e = t) /\
  (forall fs, to_date (get fs "pubDate") = None -> parse (JObj fs) = None) /\
  (forall fs e, parse (JObj fs) = Some e -> to_date (get fs "pubDate") = Some (pubDate e)).
Proof.
  intros parse to_date. unfold parse, to_date, news_schema, zcoerce_date.
  split; [|split].
  - intros fs Ht Hd Hg t Hdate.
    destruct (get fs "title") as [| | | |ti| | |]; try contradiction.
    destruct (get fs "description") as [| | | |de| | |]; try contradiction.
    destruct (get fs "tags") as [| | | | |l| |]; try contradiction.
    destruct (zstrings_of_strings l Hg) as [ss Hss].
    simpl. rewrite Hdate, Hss. eexists. split; reflexivity.
  - intros fs Hdate. rewrite Hdate.
    destruct (zstring (get fs "title")); reflexivity.
  - intros fs e H. destruct (zstring (get fs "title")); [|discriminate].
    destruct (js_new_date date_parse number_to_string date_to_string (get fs "pubDate"));
      [|discriminate].
    destruct (zstring (get fs "description")); [|discriminate].
    destruct (zarray_string (get fs "tags")); [|discriminate].
    now injection H as <-.
Qed.

Lemma pubdate_coerced_witness :
  let dp := fun s : string => if String.eqb s "2024-01-15" then Some 1705276800000%Z else None in
  let ns := fun _ : jsnum => "0" in
  let ds := fun _ : option Z => "Invalid Date" in
  let fs := fun d => [("title", JStr "T"); ("pubDate", d); ("description", JStr "D");
                      ("tags", JArr [JStr "ai"])] in
  (exists e, news_schema dp ns ds (JObj (fs (JStr "2024-01-15"))) = Some e /\
             pubDate e = 1705276800000%Z) /\
  news_schema dp ns ds (JObj (fs (JStr "yesterday"))) = None.
Proof.
  intros dp ns ds fs. split.
  - refine (proj1 (pubdate_coerced dp ns ds) (fs (JStr "2024-01-15")) _ _ _ _ eq_refl);
      simpl; repeat constructor.
  - exact (proj1 (proj2 (pubdate_coerced dp ns ds)) (fs (JStr "yesterday")) eq_refl).
Defined.

End ContentFacts.

(* ------------------------------------------------------------------ *)
(** ** Further behaviour of the news collection schema *)

Module ContentExtra.
Import Content ContentOps.
Local Open Scope string_scope.

Lemma get_set_field_eq (fs : list (string * jsval)) (k : string) (v : jsval) :
  get (set_field fs k v) k = v.
Proof.
  induction fs as [|[k' v'] r IH]; simpl.
  - now rewrite String.eqb_refl.
  - destruct (String.eqb k k') eqn:E; simpl.
    + now rewrite String.eqb_refl.
    + now rewrite E.
Qed.

Lemma get_set_field_neq (fs : list (string * jsval)) (k k' : string) (v : jsval) :
  k' <> k -> get (set_field fs k v) k' = get fs k'.
Proof.
  intros Hne. induction fs as [|[k0 v0] r IH]; simpl.
  - apply String.eqb_neq in Hne. now rewrite Hne.
  - destruct (String.eqb k k0) eqn:E; simpl.
    + apply String.eqb_eq in E. subst k0.
      apply String.eqb_neq in Hne. now rewrite Hne.
    + now rewrite IH.
Qed.

Lemma get_absent (fs : list (string * jsval)) (k : string) :
  ~ In k (map fst fs) -> get fs k = JUndefined.
Proof.
  induction fs as [|[k' v'] r IH]; simpl; intros Hn; [reflexivity|].
  destruct (String.eqb k k') eqn:E.
  - apply String.eqb_eq in E. subst. tauto.
  - apply IH. tauto.
Qed.

Lemma get_perm (fs fs' : list (string * jsval)) :
  Permutation.Permutation fs fs' -> NoDup (map fst fs) ->
  forall k, get fs k = get fs' k.
Proof.
  induction 1 as [|[k0 v0] l l' Hp IH|[kx vx] [ky vy] l|l l' l'' H1 IH1 H2 IH2];
    intros Hnd k; simpl.
  - reflexivity.
  - inversion Hnd; subst. now rewrite (IH H2).
  - simpl in Hnd. inversion Hnd as [|? ? Hny Hnd']; subst.
    destruct (String.eqb k ky) eqn:Ey, (String.eqb k kx) eqn:Ex; try reflexivity.
    apply String.eqb_eq in Ey, Ex. subst. exfalso. apply Hny. now left.
  - rewrite (IH1 Hnd). apply IH2.
    apply (Permutation.Permutation_NoDup (Permutation.Permutation_map fst H1) Hnd).
Qed.

Section Schema.
Variables (date_parse : string -> option Z) (number_to_string : jsnum -> string)
          (date_to_string : option Z -> string).

Let parse := news_schema date_parse number_to_string date_to_string.
Let to_date := js_new_date date_parse number_to_string date_to_string.

(** The schema reads an object only through its four declared keys. *)
Lemma news_schema_ext (fs fs' : list (string * jsval)) :
  (forall k, In k field_names -> get fs k = get fs' k) ->
  parse (JObj fs) = parse (JObj fs').
Proof.
  intros H. unfold parse, news_schema.
  rewrite (H "title"), (H "pubDate"), (H "description"), (H "tags")
    by (simpl; tauto).
  reflexivity.
Qed.

Lemma news_schema_accepts (fs : list (string * jsval)) (t : Z) :
  is_string (get fs "title") -> is_string (get fs "description") ->
  is_string_array (get fs "tags") -> to_date (get fs "pubDate") = Some t ->
  exists e, parse (JObj fs) = Some e /\ pubDate e = t.
Proof.
  intros Ht Hd Hg Hdate. unfold parse, news_schema, zcoerce_date.
  destruct (get fs "title") as [| | | |ti| | |]; try contradiction.
  destruct (get fs "description") as [| | | |de| | |]; try contradiction.
  destruct (get fs "tags") as [| | | | |l| |]; try contradiction.
  destruct (ContentFacts.zstrings_of_strings l Hg) as [ss Hss].
  simpl. unfold to_date in Hdate. rewrite Hdate, Hss. eexists. split; reflexivity.
Qed.

Lemma news_schema_pubdate (v : jsval) (e : NewsEntry) :
  parse v = Some e -> exists fs, v = JObj fs /\ to_date (get fs "pubDate") = Some (pubDate e).
Proof.
  unfold parse, to_date, news_schema, zcoerce_date.
  destruct v as [| | | | | |fs|]; try discriminate.
  intros H. exists fs. split; [reflexivity|].
  destruct (zstring (get fs "title")); [|discriminate].
  destruct (js_new_date date_parse number_to_string date_to_string (get fs "pubDate"));
    [|discriminate].
  destruct (zstring (get fs "description")); [|discriminate].
  destruct (zarray_string (get fs "tags")); [|discriminate].
  now injection H as <-.
Qed.

Lemma to_date_bound (v : jsval) (t : Z) :
  to_date v = Some t -> (Z.abs t <= max_time)%Z.
Proof.
  assert (Hz : forall z, time_clip_z z = Some t -> (Z.abs t <= max_time)%Z).
  { intros z. unfold time_clip_z. destruct (Z.abs z <=? max_time)%Z eqn:E; [|discriminate].
    intros H. injection H as <-. now apply Z.leb_le. }
  unfold to_date, js_new_date.
  destruct v as [| |b|n|s|l|fs|[z|]]; try discriminate.
  - intros H. vm_compute in H. injection H as <-. apply Z.leb_le. reflexivity.
  - destruct b; intros H; vm_compute in H; injection H as <-;
      apply Z.leb_le; reflexivity.
  - destruct n as [[num den]| | |]; unfold to_number, time_clip; try discriminate.
    destruct (Qle_bool (Qabs (num # den)) (inject_Z max_time)) eqn:E; [|discriminate].
    intros H. injection H as <-.
    apply Qle_bool_iff in E. unfold Qle in E. simpl in E.
    rewrite <- (Z.quot_abs num (Zpos den)) by discriminate. simpl (Z.abs (Zpos den)).
    unfold max_time in *. apply Z.quot_le_upper_bound; lia.
  - destruct (date_parse s) as [z|]; [apply Hz | discriminate].
  - destruct (date_parse _) as [z|]; [apply Hz | discriminate].
  - destruct (date_parse _) as [z|]; [apply Hz | discriminate].
  - apply Hz.
Qed.

(** Unknown keys are stripped: setting any property outside the four
    declared keys leaves the parse result unchanged. *)
Theorem unknown_keys_ignored (fs : list (string * jsval)) (k : string) (v : jsval) :
  ~ In k field_names -> parse (JObj (set_field fs k v)) = parse (JObj fs).
Proof.
  intros Hk. apply news_schema_ext. intros k' Hk'.
  apply get_set_field_neq. intros ->. contradiction.
Qed.

(** The order of an object's properties does not matter. *)
Theorem key_order_irrelevant (fs fs' : list (string * jsval)) :
  NoDup (map fst fs) -> Permutation.Permutation fs fs' ->
  parse (JObj fs) = parse (JObj fs').
Proof.
  intros Hnd Hp. apply news_schema_ext. intros k _. exact (get_perm fs fs' Hp Hnd k).
Qed.

(** A missing pubDate is [new Date(undefined)], an invalid date: the
    entry is rejected whatever the other fields hold. *)
Theorem missing_pubdate_rejected (fs : list (string * jsval)) :
  ~ In "pubDate" (map fst fs) -> parse (JObj fs) = None.
Proof.
  intros Hn. unfold parse, news_schema. rewrite (get_absent fs "pubDate" Hn).
  destruct (zstring (get fs "title")); reflexivity.
Qed.

(** Coercion quirks: with well-typed other fields, [pubDate: null] and
    [pubDate: false] are accepted as the epoch (0 ms) and [pubDate: true]
    as 1 ms after it. *)
Theorem null_or_bool_pubdate_accepted (fs : list (string * jsval)) :
  is_string (get fs "title") -> is_string (get fs "description") ->
  is_string_array (get fs "tags") ->
  (get fs "pubDate" = JNull -> exists e, parse (JObj fs) = Some e /\ pubDate e = 0%Z) /\
  (forall b, get fs "pubDate" = JBool b ->
     exists e, parse (JObj fs) = Some e /\ pubDate e = (if b then 1 else 0)%Z).
Proof.
  intros Ht Hd Hg. split.
  - intros Hp. apply news_schema_accepts; try assumption. now rewrite Hp.
  - intros b Hp. apply news_schema_accepts; try assumption. rewrite Hp. now destruct b.
Qed.

(** A numeric pubDate with well-typed other fields: a finite value of
    magnitude at most 8.64e15 ms is accepted, truncated toward zero; a
    larger one, NaN or an infinity is rejected. *)
Theorem numeric_pubdate (fs : list (string * jsval)) :
  is_string (get fs "title") -> is_string (get fs "description") ->
  is_string_array (get fs "tags") ->
  (forall q, get fs "pubDate" = JNum (NFin q) -> (Qabs q <= inject_Z max_time)%Q ->
     exists e, parse (JObj fs) = Some e /\
               pubDate e = Z.quot (Qnum q) (Zpos (Qden q))) /\
  (forall q, get fs "pubDate" = JNum (NFin q) -> (inject_Z max_time < Qabs q)%Q ->
     parse (JObj fs) = None) /\
  (forall n, get fs "pubDate" = JNum n -> n = NNaN \/ n = NPosInf \/ n = NNegInf ->
     parse (JObj fs) = None).
Proof.
  intros Ht Hd Hg. split; [|split].
  - intros q Hp Hq. apply news_schema_accepts; try assumption.
    unfold to_date, js_new_date. rewrite Hp. simpl.
    apply Qle_bool_iff in Hq. now rewrite Hq.
  - intros q Hp Hq. unfold parse, news_schema, zcoerce_date. rewrite Hp. simpl.
    destruct (Qle_bool (Qabs q) (inject_Z max_time)) eqn:E.
    + apply Qle_bool_iff in E. exfalso. apply (Qlt_not_le _ _ Hq E).
    + destruct (zstring (get fs "title")); reflexivity.
  - intros n Hp Hn. unfold parse, news_schema, zcoerce_date. rewrite Hp.
    destruct Hn as [ -> | [ -> | -> ] ]; simpl; destruct (zstring (get fs "title")); reflexivity.
Qed.

(** An array holding one string, as a pubDate, is coerced through its
    string form: [pubDate: \[s\]] parses exactly like [pubDate: s]. *)
Theorem singleton_array_pubdate (fs : list (string * jsval)) (s : string) :
  parse (JObj (set_field fs "pubDate" (JArr [JStr s]))) =
  parse (JObj (set_field fs "pubDate" (JStr s))).
Proof.
  unfold parse, news_schema.
  rewrite !get_set_field_eq, !(get_set_field_neq fs "pubDate" "title"),
    !(get_set_field_neq fs "pubDate" "description"),
    !(get_set_field_neq fs "pubDate" "tags") by discriminate.
  reflexivity.
Qed.

(** Every accepted entry has a pubDate within the Date range
    (at most 8.64e15 ms from the epoch). *)
Theorem accepted_pubdate_in_range (v : jsval) (e : NewsEntry) :
  parse v = Some e -> (Z.abs (pubDate e) <= max_time)%Z.
Proof.
  intros H. destruct (news_schema_pubdate v e H) as [fs [_ Hd]].
  exact (to_date_bound _ _ Hd).
Qed.

(** Round trip: an entry written back as frontmatter with a Date in range
    parses to itself. *)
Theorem encode_entry_roundtrip (e : NewsEntry) :
  (Z.abs (pubDate e) <= max_time)%Z -> parse (encode_entry e) = Some e.
Proof.
  intros Hr. destruct e as [ti pd de tg]. simpl in Hr.
  unfold parse, news_schema, encode_entry, zcoerce_date. simpl.
  unfold time_clip_z. apply Z.leb_le in Hr. rewrite Hr.
  assert (Hs : zstrings (map JStr tg) = Some tg)
    by (induction tg as [|x r IH]; simpl; [reflexivity | now rewrite IH]).
  now rewrite Hs.
Qed.

(** Re-validating the schema's own output, written back as frontmatter,
    gives the same entry again. *)
Theorem reparse_output (v : jsval) (e : NewsEntry) :
  parse v = Some e -> parse (encode_entry e) = Some e.
Proof.
  intros H. apply encode_entry_roundtrip. exact (accepted_pubdate_in_range v e H).
Qed.

End Schema.

Lemma unknown_keys_ignored_witness :
  let dp := fun s : string => if String.eqb s "2024-01-15" then Some 1705276800000%Z else None in
  let ns := fun _ : jsnum => "0" in
  let ds := fun _ : option Z => "Invalid Date" in
  let fs := [("title", JStr "T"); ("pubDate", JStr "2024-01-15");
             ("description", JStr "D"); ("tags", JArr [JStr "ai"])] in
  ~ In "draft" field_names /\
  news_schema dp ns ds (JObj (set_field fs "draft" (JBool true))) =
  news_schema dp ns ds (JObj fs).
Proof.
  intros dp ns ds fs.
  assert (H : ~ In "draft" field_names) by (simpl; intuition discriminate).
  split; [exact H | exact (unknown_keys_ignored dp ns ds fs "draft" (JBool true) H)].
Defined.

Lemma key_order_irrelevant_witness :
  let dp := fun s : string => if String.eqb s "2024-01-15" then Some 1705276800000%Z else None in
  let ns := fun _ : jsnum => "0" in
  let ds := fun _ : option Z => "Invalid Date" in
  let fs := [("title", JStr "T"); ("pubDate", JStr "2024-01-15");
             ("description", JStr "D"); ("tags", JArr [JStr "ai"])] in
  NoDup (map fst fs) /\
  news_schema dp ns ds (JObj fs) = news_schema dp ns ds (JObj (rev fs)).
Proof.
  intros dp ns ds fs.
  assert (H : NoDup (map fst fs)) by (repeat constructor; simpl; intuition discriminate).
  split; [exact H | exact (key_order_irrelevant dp ns ds fs (rev fs) H (Permutation_rev fs))].
Defined.

Lemma missing_pubdate_rejected_witness :
  let dp := fun s : string => if String.eqb s "2024-01-15" then Some 1705276800000%Z else None in
  let ns := fun _ : jsnum => "0" in
  let ds := fun _ : option Z => "Invalid Date" in
  let fs := [("title", JStr "T"); ("description", JStr "D"); ("tags", JArr [JStr "ai"])] in
  news_schema dp ns ds (JObj fs) = None.
Proof.
  intros dp ns ds fs.
  apply (missing_pubdate_rejected dp ns ds fs). simpl. intuition discriminate.
Defined.

Lemma null_or_bool_pubdate_accepted_witness :
  let dp := fun s : string => if String.eqb s "2024-01-15" then Some 1705276800000%Z else None in
  let ns := fun _ : jsnum => "0" in
  let ds := fun _ : option Z => "Invalid Date" in
  let fs := [("title", JStr "T"); ("pubDate", JNull);
             ("description", JStr "D"); ("tags", JArr [])] in
  exists e, news_schema dp ns ds (JObj fs) = Some e /\ pubDate e = 0%Z.
Proof.
  intros dp ns ds fs.
  refine (proj1 (null_or_bool_pubdate_accepted dp ns ds fs _ _ _) eq_refl);
    simpl; [exact I | exact I | constructor].
Defined.

Lemma numeric_pubdate_witness :
  let dp := fun s : string => if String.eqb s "2024-01-15" then Some 1705276800000%Z else None in
  let ns := fun _ : jsnum => "0" in
  let ds := fun _ : option Z => "Invalid Date" in
  let fs := [("title", JStr "T"); ("pubDate", JNum (NFin (-7 # 2)));
             ("description", JStr "D"); ("tags", JArr [JStr "ai"])] in
  exists e, news_schema dp ns ds (JObj fs) = Some e /\ pubDate e = (-3)%Z.
Proof.
  intros dp ns ds fs.
  refine (proj1 (numeric_pubdate dp ns ds fs _ _ _) (-7 # 2) eq_refl _);
    simpl; [exact I | exact I | repeat constructor | ].
  apply Qle_bool_iff. vm_compute. reflexivity.
Defined.

Lemma accepted_pubdate_in_range_witness :
  let dp := fun s : string => if String.eqb s "2024-01-15" then Some 1705276800000%Z else None in
  let ns := fun _ : jsnum => "0" in
  let ds := fun _ : option Z => "Invalid Date" in
  let v := JObj [("title", JStr "T"); ("pubDate", JStr "2024-01-15");
                 ("description", JStr "D"); ("tags", JArr [JStr "ai"])] in
  let e := {| title := "T"; pubDate := 1705276800000; description := "D"; tags := ["ai"] |} in
  news_schema dp ns ds v = Some e /\ (Z.abs (pubDate e) <= max_time)%Z.
Proof.
  intros dp ns ds v e.
  assert (H : news_schema dp ns ds v = Some e) by (vm_compute; reflexivity).
  split; [exact H | exact (accepted_pubdate_in_range dp ns ds v e H)].
Defined.

Lemma encode_entry_roundtrip_witness :
  let dp := fun _ : string => @None Z in
  let ns := fun _ : jsnum => "0" in
  let ds := fun _ : option Z => "Invalid Date" in
  let e := {| title := ""; pubDate := (-86400000)%Z; description := "D";
              tags := ["ai"; "ai"] |} in
  news_schema dp ns ds (encode_entry e) = Some e.
Proof.
  intros dp ns ds e.
  apply (encode_entry_roundtrip dp ns ds e). apply Z.leb_le. reflexivity.
Defined.

Lemma reparse_output_witness :
  let dp := fun s : string => if String.eqb s "2024-01-15" then Some 1705276800000%Z else None in
  let ns := fun _ : jsnum => "0" in
  let ds := fun _ : option Z => "Invalid Date" in
  let v := JObj [("title", JStr "T"); ("pubDate", JArr [JStr "2024-01-15"]);
                 ("description", JStr "D"); ("tags", JArr [JStr "ai"]); ("x", JNull)] in
  let e := {| title := "T"; pubDate := 1705276800000; description := "D"; tags := ["ai"] |} in
  news_schema dp ns ds v = Some e /\ news_schema dp ns ds (encode_entry e) = Some e.
Proof.
  intros dp ns ds v e.
  assert (H : news_schema dp ns ds v = Some e) by (vm_compute; reflexivity).
  split; [exact H | exact (reparse_output dp ns ds v e H)].
Defined.

End ContentExtra.
